(** * os-exec: a shallow embedding of [os-exec.hh]

    The header offers three operations: [shell_quote], a pure function on
    byte strings; [run], the mmap / fork / execlp / waitpid protocol that
    collapses every way a child can end into one [std::error_code]; and
    [run_echo], which prints the quoted command line before running it.

    Byte strings are [string] (a list of 8-bit [ascii]); C [int] values and
    pointers are [Z]; the operating system is an oracle record answering
    each system call, and the code runs in a small state monad whose
    results also cover the ways a process leaves [run] without returning
    ([exit], a successful [exec], [abort]). *)

From Stdlib Require Import ZArith List String Ascii Bool Lia DecimalString.
From Stdlib Require DecimalPos DecimalZ.
From Equations Require Import Equations.
Import ListNotations.

Local Open Scope string_scope.
Local Open Scope Z_scope.

(** ** Error taxonomy *)

(** [std::to_string(int)]: the decimal numeral, with a leading minus sign
    for negative values. *)
Definition to_string (value : Z) : string :=
  NilZero.string_of_int (Z.to_int value).

(** [std::error_category] is an interface with two virtual members. *)
Record error_category : Type := {
  name : string;
  message : Z -> string
}.

Definition Non_Zero_Exit_Code : error_category :=
  {| name := "Non_Zero_Exit_Code";
     message := fun value => "exit status " ++ to_string value |}.

Definition Killed_By_Signal : error_category :=
  {| name := "Killed_By_Signal";
     message := fun value => "killed by signal " ++ to_string value |}.

Definition Stopped_By_Signal : error_category :=
  {| name := "Stopped_By_Signal";
     message := fun value => "stopped by signal " ++ to_string value |}.

Definition Unknown_Termination_Cause : error_category :=
  {| name := "Unknown_Termination_Cause";
     message := fun _ => "unknown termination cause" |}.

(** Categories are compared by identity (they are function-local statics),
    so an [error_code] carries a tag naming the singleton.  The two
    standard-library categories have no definition in the header; only
    their identity matters here. *)
Inductive category_id : Type :=
| system_category
| generic_category
| non_zero_exit_code
| killed_by_signal
| stopped_by_signal
| unknown_termination_cause.

(** The object returned by each of the four accessor functions. *)
Definition domain (c : category_id) : option error_category :=
  match c with
  | non_zero_exit_code => Some Non_Zero_Exit_Code
  | killed_by_signal => Some Killed_By_Signal
  | stopped_by_signal => Some Stopped_By_Signal
  | unknown_termination_cause => Some Unknown_Termination_Cause
  | system_category | generic_category => None
  end.

Record error_code : Type := {
  value : Z;
  category : category_id
}.

(** [return {}]: a default-constructed [std::error_code]. *)
Definition ok : error_code := {| value := 0; category := system_category |}.

(** [std::make_error_code((std::errc)e)]. *)
Definition make_error_code (e : Z) : error_code :=
  {| value := e; category := generic_category |}.

(** ** shell_quote *)

Module Quote.

(** [std::isalnum] in the "C" locale: the digits and the ASCII letters, the
    set the specification's glossary gives. *)
Definition isalnum (c : ascii) : bool :=
  let n := nat_of_ascii c in
  ((48 <=? n) && (n <=? 57) || (65 <=? n) && (n <=? 90)
   || (97 <=? n) && (n <=? 122))%nat.

(** [std::string_view::find(char)]; [None] stands for [npos]. *)
Fixpoint find (c : ascii) (s : string) : option nat :=
  match s with
  | EmptyString => None
  | String a rest =>
      if Ascii.eqb a c then Some O
      else match find c rest with
           | Some i => Some (S i)
           | None => None
           end
  end.

Fixpoint all_of (p : ascii -> bool) (s : string) : bool :=
  match s with
  | EmptyString => true
  | String a rest => p a && all_of p rest
  end.

(** The first [n] bytes of [s], as in [append(value.data(), n)]. *)
Fixpoint take (n : nat) (s : string) : string :=
  match n, s with
  | S m, String a rest => String a (take m rest)
  | _, _ => EmptyString
  end.

Fixpoint remove_prefix (n : nat) (s : string) : string :=
  match n, s with
  | S m, String _ rest => remove_prefix m rest
  | _, _ => s
  end.

Definition apostrophe : ascii := "'"%char.

Definition safe_chars : string := "@%+=:,./-_".

Definition is_safe_char (c : ascii) : bool :=
  isalnum c || match find c safe_chars with Some _ => true | None => false end.

Definition inspect {A : Type} (a : A) : {b : A | a = b} := exist _ a eq_refl.

(** The [for (;;)] loop: while an apostrophe is found, copy what precedes
    it followed by backslash-apostrophe and drop it from the view.  The
    result is the accumulated text and what is left of the view. *)
Equations? quote_loop (retval value : string) : string * string
  by wf (String.length value) lt :=
  quote_loop retval value with inspect (find apostrophe value) := {
    | exist _ (Some quote) _ :=
        quote_loop (retval ++ take quote value ++ "\'")
                   (remove_prefix (quote + 1) value);
    | exist _ None _ := (retval, value) }.
Proof.
  clear quote_loop retval.
  match goal with
  | H : find _ ?v = Some ?q |- _ =>
      revert q H; induction v as [|a rest IH]; intros q; cbn
  end.
  - discriminate.
  - destruct (Ascii.eqb a apostrophe).
    + intros [= <-]. cbn. lia.
    + destruct (find apostrophe rest) as [j|]; [|discriminate].
      intros [= <-]. specialize (IH j eq_refl). cbn. lia.
Qed.

(** The transform the specification describes: every apostrophe becomes
    backslash-apostrophe, every other byte is kept. *)
Fixpoint escape_apostrophes (v : string) : string :=
  match v with
  | EmptyString => EmptyString
  | String c rest =>
      if Ascii.eqb c apostrophe then "\'" ++ escape_apostrophes rest
      else String c (escape_apostrophes rest)
  end.

Definition shell_quote (value : string) : string :=
  if String.eqb value "" then "''"
  else
    let is_safe := all_of is_safe_char value in
    if is_safe then value
    else
      let retval := "'" in
      let '(retval, value) := quote_loop retval value in
      let retval := if negb (String.eqb value "") then retval ++ value
                    else retval in
      retval ++ "'".

End Quote.

Import Quote.

(** ** The operating system *)

(** Values of the platform (LP64) and of <sys/mman.h>. *)
Definition nullptr : Z := 0.
Definition MAP_FAILED : Z := -1.
Definition sizeof_int : Z := 4.
Definition sizeof_pointer : Z := 8.

(** The wait-status macros of <sys/wait.h>.  The header does not define
    them, so [run] is modelled over any implementation. *)
Class WaitMacros : Type := {
  WIFEXITED : Z -> bool;
  WEXITSTATUS : Z -> Z;
  WIFSIGNALED : Z -> bool;
  WTERMSIG : Z -> Z;
  WIFSTOPPED : Z -> bool;
  WSTOPSIG : Z -> Z
}.

(** What the kernel answers.  Each call yields its return value and the
    [errno] it leaves behind when it fails; a successful [execlp] yields
    nothing, because the process image is gone.  [NDEBUG] is the one build
    setting the code depends on. *)
Record OS : Type := {
  os_mmap : Z * Z;
  os_fork : Z * Z;
  os_execlp : string -> list string -> option (Z * Z);
  os_waitpid : Z -> Z * Z * Z;
  NDEBUG : bool
}.

Inductive Event : Type :=
| EvMmap (len : Z)
| EvMunmap (addr len : Z)
| EvFork
| EvExeclp (file : string) (argv : list string)
| EvWaitpid (pid options : Z)
| EvExit (code : Z)
| EvAssert.

(** Process-local state: [errno], the addresses mapped in this address
    space, the calls made so far, and the one field of the local
    [Exec_Failure] object of [run]. *)
Record Proc : Type := {
  errno : Z;
  mapped : list Z;
  trace : list Event;
  exec_failure_value : Z
}.

(** How a process leaves a piece of code. *)
Inductive Outcome (A : Type) : Type :=
| Ret (a : A)
| Exited (code : Z)
| Replaced
| Aborted
| Fault.
Arguments Ret {A} a.
Arguments Exited {A} code.
Arguments Replaced {A}.
Arguments Aborted {A}.
Arguments Fault {A}.

(** The whole system seen from the calling process: its own state, the
    contents of shared memory, the text on standard output, and for each
    child forked how it left [run] and in which state. *)
Record State : Type := {
  proc : Proc;
  shm : Z -> Z;
  stdout : string;
  children : list (Outcome error_code * Proc)
}.

Definition M (A : Type) : Type := State -> Outcome A * State.

Definition ret {A} (a : A) : M A := fun st => (Ret a, st).

Definition bind {A B} (m : M A) (k : A -> M B) : M B := fun st =>
  match m st with
  | (Ret a, st') => k a st'
  | (Exited c, st') => (Exited c, st')
  | (Replaced, st') => (Replaced, st')
  | (Aborted, st') => (Aborted, st')
  | (Fault, st') => (Fault, st')
  end.

Declare Scope monad_scope.
Delimit Scope monad_scope with monad.
Notation "x <- c1 ;; c2" := (bind c1 (fun x => c2))
  (at level 100, c1 at next level, right associativity) : monad_scope.
Notation "' pat <- c1 ;; c2" := (bind c1 (fun x => match x with pat => c2 end))
  (at level 100, pat pattern, c1 at next level, right associativity)
  : monad_scope.
Notation "c1 ;; c2" := (bind c1 (fun _ => c2))
  (at level 100, right associativity) : monad_scope.
Local Open Scope monad_scope.

Definition with_proc (f : Proc -> Proc) (st : State) : State :=
  {| proc := f (proc st); shm := shm st; stdout := stdout st;
     children := children st |}.

Definition set_errno (e : Z) (p : Proc) : Proc :=
  {| errno := e; mapped := mapped p; trace := trace p;
     exec_failure_value := exec_failure_value p |}.

Definition set_mapped (m : list Z) (p : Proc) : Proc :=
  {| errno := errno p; mapped := m; trace := trace p;
     exec_failure_value := exec_failure_value p |}.

Definition log (ev : Event) (p : Proc) : Proc :=
  {| errno := errno p; mapped := mapped p; trace := trace p ++ [ev];
     exec_failure_value := exec_failure_value p |}.

Definition set_value (v : Z) (p : Proc) : Proc :=
  {| errno := errno p; mapped := mapped p; trace := trace p;
     exec_failure_value := v |}.

Definition set_shm (addr v : Z) (st : State) : State :=
  {| proc := proc st;
     shm := fun a => if a =? addr then v else shm st a;
     stdout := stdout st; children := children st |}.

Definition is_mapped (addr : Z) (p : Proc) : bool :=
  existsb (fun a => a =? addr) (mapped p).

Section Run.

Context {wait_macros : WaitMacros}.
Variable os : OS.

Definition get_errno : M Z := fun st => (Ret (errno (proc st)), st).

Definition get_value : M Z := fun st =>
  (Ret (exec_failure_value (proc st)), st).

Definition put_value (v : Z) : M unit := fun st =>
  (Ret tt, with_proc (set_value v) st).

(** [*addr = v] and [*addr] on an [int] in shared memory. *)
Definition store (addr v : Z) : M unit := fun st =>
  if is_mapped addr (proc st) then (Ret tt, set_shm addr v st)
  else (Fault, st).

Definition load (addr : Z) : M Z := fun st =>
  if is_mapped addr (proc st) then (Ret (shm st addr), st)
  else (Fault, st).

(** [mmap(nullptr, len, PROT_READ | PROT_WRITE, MAP_SHARED | MAP_ANONYMOUS,
    0, 0)]: a fresh shared mapping is zero-filled. *)
Definition mmap (len : Z) : M Z := fun st =>
  let st := with_proc (log (EvMmap len)) st in
  let '(ptr, e) := os_mmap os in
  if ptr =? MAP_FAILED then (Ret ptr, with_proc (set_errno e) st)
  else (Ret ptr,
        set_shm ptr 0
          (with_proc (fun p => set_mapped (ptr :: mapped p) p) st)).

(** [munmap] works on whole pages, so any positive [len] releases the
    one-page mapping that starts at [addr]. *)
Definition munmap (addr len : Z) : M Z := fun st =>
  let st := with_proc (log (EvMunmap addr len)) st in
  (Ret 0,
   with_proc
     (fun p => set_mapped (filter (fun a => negb (a =? addr)) (mapped p)) p)
     st).

Definition execlp (file : string) (argv : list string) : M Z := fun st =>
  let st := with_proc (log (EvExeclp file argv)) st in
  match os_execlp os file argv with
  | None => (Replaced, st)
  | Some (r, e) => (Ret r, with_proc (set_errno e) st)
  end.

Definition exit {A} (code : Z) : M A := fun st =>
  (Exited code, with_proc (log (EvExit code)) st).

(** [assert(cond)]: compiled out under NDEBUG, otherwise aborts when
    [cond] is false.  The event marks control arriving at the statement. *)
Definition assert (cond : bool) : M unit := fun st =>
  let st := with_proc (log EvAssert) st in
  if NDEBUG os then (Ret tt, st)
  else if cond then (Ret tt, st) else (Aborted, st).

Definition waitpid (pid options : Z) : M (Z * Z) := fun st =>
  let st := with_proc (log (EvWaitpid pid options)) st in
  let '(r, wstatus, e) := os_waitpid os pid in
  if r <? 0 then (Ret (r, wstatus), with_proc (set_errno e) st)
  else (Ret (r, wstatus), st).

(** The state in which the child starts: a copy of the parent's, with its
    own record of calls. *)
Definition child_of (st : State) : State :=
  {| proc := {| errno := errno (proc st); mapped := mapped (proc st);
                trace := [];
                exec_failure_value := exec_failure_value (proc st) |};
     shm := shm st; stdout := stdout st; children := [] |}.

(** [fork()] returns twice, so the code after it is run twice: with 0 in
    the child and with the answer of the kernel in the caller.  The parent
    touches shared memory again only after [waitpid] has reaped the child,
    so the child is run to its end first and the parent resumes on the
    memory it leaves. *)
Definition fork (k : Z -> M error_code) : M error_code := fun st =>
  let st := with_proc (log EvFork) st in
  let '(pid, e) := os_fork os in
  if pid <? 0 then k pid (with_proc (set_errno e) st)
  else
    let '(fate, cst) := k 0 (child_of st) in
    k pid {| proc := proc st; shm := shm cst; stdout := stdout cst;
             children := children st ++ [(fate, proc cst)] |}.

(** Lines 100-107, the body of [else if (pid == 0)]. *)
Definition child (program : string) (args : list string) : M unit :=
  r <- execlp program (program :: args) ;;
  (if r <? 0 then
     e <- get_errno ;;
     p <- get_value ;;
     store p e ;;
     exit 1
   else ret tt) ;;
  assert false.

(** Lines 118-125. *)
Definition classify (wstatus : Z) : error_code :=
  if WIFEXITED wstatus then
    let exit_code := WEXITSTATUS wstatus in
    if exit_code =? 0 then ok
    else {| value := exit_code; category := non_zero_exit_code |}
  else if WIFSIGNALED wstatus then
    {| value := WTERMSIG wstatus; category := killed_by_signal |}
  else if WIFSTOPPED wstatus then
    {| value := WSTOPSIG wstatus; category := stopped_by_signal |}
  else {| value := 1; category := unknown_termination_cause |}.

(** Lines 109-125. *)
Definition parent (pid : Z) : M error_code :=
  '(r, wstatus) <- waitpid pid 0 ;;
  if r <? 0 then
    e <- get_errno ;; ret (make_error_code e)
  else
    p <- get_value ;;
    failure <- load p ;;
    if negb (failure =? 0) then ret (make_error_code failure)
    else ret (classify wstatus).

(** Lines 98-125, everything after [auto const pid = fork()]. *)
Definition after_fork (program : string) (args : list string) (pid : Z)
  : M error_code :=
  if pid <? 0 then
    e <- get_errno ;; ret (make_error_code e)
  else
    (if pid =? 0 then child program args else ret tt) ;;
    parent pid.

(** Lines 91-125. *)
Definition run_body (program : string) (args : list string) : M error_code :=
  ptr <- mmap sizeof_int ;;
  if negb (ptr =? MAP_FAILED) then
    put_value ptr ;;
    store ptr 0 ;;
    fork (after_fork program args)
  else
    e <- get_errno ;; ret (make_error_code e).

(** [~Exec_Failure()]. *)
Definition Exec_Failure_dtor : M unit :=
  p <- get_value ;;
  if negb (p =? nullptr) then munmap p sizeof_pointer ;; ret tt
  else ret tt.

(** A local object: constructed on entry, destroyed when the body
    returns.  Leaving through [exit], [exec] or [abort] unwinds nothing. *)
Definition run (program : string) (args : list string) : M error_code :=
  put_value nullptr ;;
  result <- run_body program args ;;
  Exec_Failure_dtor ;;
  ret result.

(** [std::cout << s]. *)
Definition cout (s : string) : M unit := fun st =>
  (Ret tt, {| proc := proc st; shm := shm st; stdout := stdout st ++ s;
              children := children st |}).

Fixpoint cout_args (args : list string) : M unit :=
  match args with
  | [] => ret tt
  | a :: rest => cout " " ;; cout (shell_quote a) ;; cout_args rest
  end.

Definition endl : string := String (ascii_of_nat 10) "".

Definition run_echo (program : string) (args : list string) : M error_code :=
  cout (shell_quote program) ;;
  cout_args args ;;
  cout endl ;;
  run program args.

End Run.

(** The encoding of wait statuses used by Linux and glibc
    (bits/waitstatus.h), for concrete runs. *)
Definition to_signed_char (x : Z) : Z :=
  let y := x mod 256 in if y <? 128 then y else y - 256.

#[export] Instance linux_wait : WaitMacros := {|
  WEXITSTATUS := fun s => Z.shiftr (Z.land s 65280) 8;
  WTERMSIG := fun s => Z.land s 127;
  WSTOPSIG := fun s => Z.shiftr (Z.land s 65280) 8;
  WIFEXITED := fun s => Z.land s 127 =? 0;
  WIFSIGNALED := fun s => 0 <? Z.shiftr (to_signed_char (Z.land s 127 + 1)) 1;
  WIFSTOPPED := fun s => Z.land s 255 =? 127
|}.

(** ** Observations on a run *)

(** [*exec_failure.value] as the process sees it. *)
Definition channel (st : State) : Z := shm st (exec_failure_value (proc st)).

Definition is_munmap (ev : Event) : bool :=
  match ev with EvMunmap _ _ => true | _ => false end.

Definition is_waitpid (ev : Event) : bool :=
  match ev with EvWaitpid _ _ => true | _ => false end.

(** The [munmap] calls among the calls of a trace, in order. *)
Definition munmaps (t : list Event) : list Event := filter is_munmap t.

Definition put_stdout (out : string) (st : State) : State :=
  {| proc := proc st; shm := shm st; stdout := out; children := children st |}.

(** The line [run_echo] is specified to print. *)
Definition echo_line (program : string) (args : list string) : string :=
  shell_quote program
  ++ fold_right (fun a acc => " " ++ shell_quote a ++ acc) endl args.

(** The safe set as the specification words it: a byte is safe when it is
    alphanumeric or one of [@%+=:,./-_]. *)
Definition alphanumeric (c : ascii) : Prop :=
  let n := nat_of_ascii c in
  (48 <= n <= 57 \/ 65 <= n <= 90 \/ 97 <= n <= 122)%nat.

Definition safe_byte (c : ascii) : Prop :=
  alphanumeric c \/ In c (list_ascii_of_string "@%+=:,./-_").

Definition all_safe (s : string) : Prop :=
  forall c, In c (list_ascii_of_string s) -> safe_byte c.

(** A payload is zero exactly when the outcome is the default-constructed
    one. *)
Definition payload_tells_ok (ec : error_code) : Prop :=
  match category ec with
  | system_category => ec = ok
  | generic_category | non_zero_exit_code | killed_by_signal
  | stopped_by_signal | unknown_termination_cause => value ec <> 0
  end.

(** A computation that neither reads nor writes standard output. *)
Definition stdout_blind {A : Type} (m : M A) : Prop :=
  forall st out,
    m (put_stdout out st) = (fst (m st), put_stdout out (snd (m st))).

(** What POSIX promises about the answers: a call that fails leaves a
    non-zero error number in [errno], and a status reporting a signal
    carries a signal number, which is never zero. *)
Definition errno_set (os : OS) : Prop :=
  (fst (os_mmap os) = MAP_FAILED -> snd (os_mmap os) <> 0) /\
  (fst (os_fork os) < 0 -> snd (os_fork os) <> 0) /\
  (forall pid r wstatus e,
      os_waitpid os pid = (r, wstatus, e) -> r < 0 -> e <> 0).

Definition signals_numbered `{WaitMacros} (os : OS) : Prop :=
  forall pid r wstatus e,
    os_waitpid os pid = (r, wstatus, e) -> 0 <= r ->
    (WIFSIGNALED wstatus = true -> WTERMSIG wstatus <> 0) /\
    (WIFSTOPPED wstatus = true -> WSTOPSIG wstatus <> 0).

(** [execlp] returns only to report a failure. *)
Definition execlp_posix (os : OS) : Prop :=
  forall file argv r e, os_execlp os file argv = Some (r, e) -> r < 0.

(** ** Concrete runs *)

Definition fresh : State :=
  {| proc := {| errno := 0; mapped := []; trace := [];
                exec_failure_value := 0 |};
     shm := fun _ => 0; stdout := ""; children := [] |}.

Definition ENOENT : Z := 2.
Definition ENOMEM : Z := 12.
Definition EAGAIN : Z := 11.
Definition ECHILD : Z := 10.

(** A kernel on which everything succeeds: the mapping lands at a page of
    its choice, the child gets process id 4711, the program is found and
    ends with wait status [wstatus]; only a child of the caller can be
    waited for. *)
Definition os_runs (wstatus : Z) : OS :=
  {| os_mmap := (140737351856128, 0);
     os_fork := (4711, 0);
     os_execlp := fun _ _ => None;
     os_waitpid := fun pid =>
       if 0 <? pid then (pid, wstatus, 0) else (-1, 0, ECHILD);
     NDEBUG := false |}.

(** The program is not on [PATH]: [execlp] returns -1 with ENOENT and the
    child ends with exit code 1 (wait status 256). *)
Definition os_no_such_program : OS :=
  {| os_mmap := (140737351856128, 0);
     os_fork := (4711, 0);
     os_execlp := fun _ _ => Some (-1, ENOENT);
     os_waitpid := fun pid =>
       if 0 <? pid then (pid, 256, 0) else (-1, 0, ECHILD);
     NDEBUG := false |}.

Definition os_mmap_fails : OS :=
  {| os_mmap := (MAP_FAILED, ENOMEM);
     os_fork := (4711, 0);
     os_execlp := fun _ _ => None;
     os_waitpid := fun pid =>
       if 0 <? pid then (pid, 0, 0) else (-1, 0, ECHILD);
     NDEBUG := false |}.

Definition os_fork_fails : OS :=
  {| os_mmap := (140737351856128, 0);
     os_fork := (-1, EAGAIN);
     os_execlp := fun _ _ => None;
     os_waitpid := fun pid =>
       if 0 <? pid then (pid, 0, 0) else (-1, 0, ECHILD);
     NDEBUG := false |}.

Definition os_waitpid_fails : OS :=
  {| os_mmap := (140737351856128, 0);
     os_fork := (4711, 0);
     os_execlp := fun _ _ => None;
     os_waitpid := fun pid => (-1, 0, ECHILD);
     NDEBUG := false |}.

(** ** The overloads for owned strings *)

(** A C string ends at its first NUL byte: what a pointer to the bytes
    [s] denotes, for a [std::string_view] built from it as for
    [execlp]. *)
Definition NUL : ascii := ascii_of_nat 0.

Definition c_str (s : string) : string :=
  match find NUL s with
  | Some n => take n s
  | None => s
  end.

(** An owned byte string such as [std::string]: any bytes, with its
    length kept apart. *)
Record std_string : Type := { bytes : string }.

(** The concept [Convertible_To_CStr]: [as_cstr] returns the value itself
    when it converts to [char const*], and [v.c_str()] otherwise. *)
Class Convertible_To_CStr (T : Type) : Type := {
  as_cstr : T -> string
}.

#[export] Instance cstr_Convertible_To_CStr : Convertible_To_CStr string :=
  {| as_cstr := fun v => v |}.

#[export] Instance std_string_Convertible_To_CStr
  : Convertible_To_CStr std_string :=
  {| as_cstr := fun v => c_str (bytes v) |}.

(** One argument of the parameter pack [args...], of a type of its own. *)
Record Argument : Type := {
  arg_type : Type;
  arg_concept : Convertible_To_CStr arg_type;
  arg_value : arg_type
}.

Definition as_cstr_pack (args : list Argument) : list string :=
  map (fun a => @as_cstr (arg_type a) (arg_concept a) (arg_value a)) args.

(** Lines 144-148 and 150-154. *)
Definition run_converting `{WaitMacros} (os : OS) {P : Type}
    `{Convertible_To_CStr P} (program : P) (args : list Argument)
  : M error_code :=
  run os (as_cstr program) (as_cstr_pack args).

Definition run_echo_converting `{WaitMacros} (os : OS) {P : Type}
    `{Convertible_To_CStr P} (program : P) (args : list Argument)
  : M error_code :=
  run_echo os (as_cstr program) (as_cstr_pack args).

(** ** Reading a quoted string back *)

Definition backslash : ascii := ascii_of_nat 92.

(** Drops the backslash in front of each apostrophe. *)
Fixpoint unescape_apostrophes (s : string) : string :=
  match s with
  | EmptyString => EmptyString
  | String c rest =>
      match rest with
      | String d rest' =>
          if Ascii.eqb c backslash && Ascii.eqb d apostrophe
          then String apostrophe (unescape_apostrophes rest')
          else String c (unescape_apostrophes rest)
      | EmptyString => String c EmptyString
      end
  end.

Fixpoint occurrences (c : ascii) (s : string) : nat :=
  match s with
  | EmptyString => O
  | String a rest =>
      if Ascii.eqb a c then S (occurrences c rest) else occurrences c rest
  end.

(** ** Proof automation *)

#[local] Arguments Z.eqb : simpl never.
#[local] Arguments Z.ltb : simpl never.

(** [run] down to the call of [fork], and the destructor after it. *)
Ltac unfold_run :=
  unfold run, run_body, Exec_Failure_dtor, fork, mmap, munmap, store, load,
    put_value, get_value, get_errno, bind, ret, is_mapped, child_of, channel.

(** The code after [fork], in the child or in the parent. *)
Ltac unfold_after_fork :=
  unfold after_fork, child, parent, execlp, waitpid, exit, assert, store,
    load, get_value, get_errno, bind, ret, is_mapped.

(** Rewrite with what is known about a condition or an answer of the
    kernel. *)
Ltac known_rewrite :=
  match goal with
  | H : ?c = true |- context [?c] => rewrite H
  | H : ?c = false |- context [?c] => rewrite H
  | H : ?x = (_, _) |- context [?x] => rewrite H
  | H : ?x = Some _ |- context [?x] => rewrite H
  | H : ?x = None |- context [?x] => rewrite H
  | |- context [?x =? ?x] => rewrite Z.eqb_refl
  end.

(** Symbolic execution: compute, and resolve each test once its outcome is
    known, until nothing moves. *)
Ltac sym_exec := repeat (cbn; known_rewrite); cbn.

(** ** The error taxonomy *)

Lemma to_string_parses (n : Z) :
  option_map Z.of_int (NilZero.int_of_string (to_string n)) = Some n.
Proof.
  unfold to_string.
  destruct n as [|p|p].
  - reflexivity.
  - rewrite NilZero.isi.
    + cbn [option_map]. now rewrite DecimalZ.of_to.
    + cbn. intros [= H]. now apply DecimalPos.Unsigned.to_uint_nonnil in H.
    + discriminate.
  - rewrite NilZero.isi.
    + cbn [option_map]. now rewrite DecimalZ.of_to.
    + discriminate.
    + cbn. intros [= H]. now apply DecimalPos.Unsigned.to_uint_nonnil in H.
Qed.

(** C7: each of the four library-defined error domains reports the name
    string of the specification's table, and renders a payload [n] as
    "exit status <n>", "killed by signal <n>", "stopped by signal <n>" and
    the fixed "unknown termination cause"; <n> is the decimal numeral of
    [n], which reads back as [n]. *)
Theorem domain_names_and_messages :
  (domain non_zero_exit_code = Some Non_Zero_Exit_Code /\
   name Non_Zero_Exit_Code = "Non_Zero_Exit_Code" /\
   forall n, message Non_Zero_Exit_Code n = "exit status " ++ to_string n) /\
  (domain killed_by_signal = Some Killed_By_Signal /\
   name Killed_By_Signal = "Killed_By_Signal" /\
   forall n, message Killed_By_Signal n = "killed by signal " ++ to_string n) /\
  (domain stopped_by_signal = Some Stopped_By_Signal /\
   name Stopped_By_Signal = "Stopped_By_Signal" /\
   forall n,
     message Stopped_By_Signal n = "stopped by signal " ++ to_string n) /\
  (domain unknown_termination_cause = Some Unknown_Termination_Cause /\
   name Unknown_Termination_Cause = "Unknown_Termination_Cause" /\
   forall n,
     message Unknown_Termination_Cause n = "unknown termination cause") /\
  (forall n,
     option_map Z.of_int (NilZero.int_of_string (to_string n)) = Some n) /\
  message Non_Zero_Exit_Code 42 = "exit status 42" /\
  message Killed_By_Signal 15 = "killed by signal 15" /\
  message Stopped_By_Signal 19 = "stopped by signal 19" /\
  message Non_Zero_Exit_Code (-1) = "exit status -1".
Proof.
  repeat split; try reflexivity.
  apply to_string_parses.
Qed.

(** ** shell_quote *)

Section Strings.

Lemma append_nil_r (s : string) : s ++ "" = s.
Proof. induction s as [|a s IH]; cbn; [reflexivity | now rewrite IH]. Qed.

Lemma append_assoc (s t u : string) : (s ++ t) ++ u = s ++ (t ++ u).
Proof. induction s as [|a s IH]; cbn; [reflexivity | now rewrite IH]. Qed.

Lemma all_of_forall (p : ascii -> bool) (s : string) :
  all_of p s = true <->
  forall c, In c (list_ascii_of_string s) -> p c = true.
Proof.
  induction s as [|a s IH]; cbn.
  - split; [intros _ c [] | reflexivity].
  - rewrite andb_true_iff, IH. split.
    + intros [Ha Hs] c [<- | Hc]; auto.
    + intros H. split; [apply H; now left | intros c Hc; apply H; now right].
Qed.

Lemma find_In (c : ascii) (s : string) :
  (exists i, find c s = Some i) <-> In c (list_ascii_of_string s).
Proof.
  induction s as [|a s IH]; cbn.
  - split; [intros [i H]; discriminate | intros []].
  - destruct (Ascii.eqb_spec a c) as [-> | Hne].
    + split; [now left | intros _; now exists O].
    + rewrite <- IH. split.
      * intros [i H]. destruct (find c s) as [j|]; [|discriminate].
        right. now exists j.
      * intros [Hac | [j H]]; [contradiction | rewrite H; now exists (S j)].
Qed.

Lemma isalnum_alphanumeric (c : ascii) :
  isalnum c = true <-> alphanumeric c.
Proof.
  unfold isalnum, alphanumeric; cbv zeta.
  rewrite !orb_true_iff, !andb_true_iff, !Nat.leb_le. tauto.
Qed.

Lemma is_safe_char_safe_byte (c : ascii) :
  is_safe_char c = true <-> safe_byte c.
Proof.
  unfold is_safe_char, safe_byte.
  rewrite orb_true_iff, isalnum_alphanumeric, <- (find_In c safe_chars).
  destruct (find c safe_chars) as [i|].
  - split; intros _; right; [now exists i | reflexivity].
  - split; (intros [H | H]; [now left | ]).
    + discriminate.
    + destruct H; discriminate.
Qed.

Lemma all_of_all_safe (s : string) :
  all_of is_safe_char s = true <-> all_safe s.
Proof.
  rewrite all_of_forall. unfold all_safe.
  split; intros H c Hc; apply is_safe_char_safe_byte, H, Hc.
Qed.

End Strings.

Section QuoteLoop.

Lemma escape_no_apostrophe (s : string) :
  find apostrophe s = None -> escape_apostrophes s = s.
Proof.
  induction s as [|a s IH]; cbn; [reflexivity|].
  destruct (Ascii.eqb a apostrophe); [discriminate|].
  destruct (find apostrophe s); [discriminate|].
  intros _. now rewrite IH.
Qed.

(** Up to the first apostrophe the escaped text is the text itself. *)
Lemma escape_at_apostrophe (s : string) (quote : nat) :
  find apostrophe s = Some quote ->
  escape_apostrophes s =
  take quote s ++ "\'" ++ escape_apostrophes (remove_prefix (quote + 1) s).
Proof.
  revert quote; induction s as [|a s IH]; intros quote; cbn; [discriminate|].
  destruct (Ascii.eqb a apostrophe).
  - intros [= <-]. reflexivity.
  - destruct (find apostrophe s) as [j|]; [|discriminate].
    intros [= <-]. cbn. now rewrite (IH j eq_refl).
Qed.

(** The loop leaves a view without apostrophes, and what it has written
    followed by that view is the escaped input. *)
Lemma quote_loop_escapes (retval v : string) :
  find apostrophe (snd (quote_loop retval v)) = None /\
  fst (quote_loop retval v) ++ snd (quote_loop retval v) =
  retval ++ escape_apostrophes v.
Proof.
  funelim (quote_loop retval v).
  - match goal with
    | IH : _ /\ _, E : find apostrophe _ = Some _ |- _ =>
        destruct IH as [IH1 IH2]; rewrite (escape_at_apostrophe _ _ E)
    end.
    split; [assumption|].
    rewrite IH2, !append_assoc. reflexivity.
  - cbn. split; [assumption|].
    now rewrite escape_no_apostrophe.
Qed.

End QuoteLoop.

(** C4, as the code has it: for every non-empty byte string all of whose
    bytes are alphanumeric or in the safe set [@%+=:,./-_], [shell_quote]
    returns the string byte for byte. *)
Theorem shell_quote_safe_verbatim (s : string) :
  s <> "" -> all_safe s -> shell_quote s = s.
Proof.
  intros Hne Hsafe. unfold shell_quote.
  destruct (String.eqb_spec s "") as [-> | _]; [contradiction|].
  apply all_of_all_safe in Hsafe. now rewrite Hsafe.
Qed.

Lemma shell_quote_safe_verbatim_witness :
  "./configure" <> "" /\ all_safe "./configure" /\
  shell_quote "./configure" = "./configure".
Proof.
  assert (Hne : "./configure" <> "") by discriminate.
  assert (Hsafe : all_safe "./configure")
    by (apply all_of_all_safe; reflexivity).
  exact (conj Hne (conj Hsafe
           (shell_quote_safe_verbatim "./configure" Hne Hsafe))).
Defined.

(** C4 as stated fails on the empty string: all of its bytes are safe, yet
    the result is a pair of apostrophes, not the empty string. *)
Lemma shell_quote_empty_not_verbatim :
  all_safe "" /\ shell_quote "" = "''" /\ shell_quote "" <> "".
Proof.
  split; [intros c [] | split; [reflexivity | discriminate]].
Qed.

(** C5: for every non-empty byte string with a byte outside the safe set,
    [shell_quote] yields the string with each apostrophe replaced by
    backslash-apostrophe, between one pair of apostrophes; and the four
    examples of the specification. *)
Theorem shell_quote_escapes :
  (forall v : string,
      v <> "" ->
      (exists c, In c (list_ascii_of_string v) /\ ~ safe_byte c) ->
      shell_quote v = "'" ++ escape_apostrophes v ++ "'") /\
  shell_quote "hello" = "hello" /\
  shell_quote "a b" = "'a b'" /\
  shell_quote "it's" = "'it\'s'" /\
  shell_quote "" = "''".
Proof.
  split; [|repeat split; reflexivity].
  intros v Hne [c [Hc Hunsafe]]. unfold shell_quote.
  destruct (String.eqb_spec v "") as [-> | _]; [contradiction|].
  destruct (all_of is_safe_char v) eqn:Hall.
  - apply all_of_all_safe in Hall. elim Hunsafe. now apply Hall.
  - destruct (quote_loop_escapes "'" v) as [_ Hloop].
    destruct (quote_loop "'" v) as [retval rest]; cbn [fst snd] in Hloop.
    destruct (String.eqb_spec rest "") as [-> | _]; cbn [negb].
    + rewrite append_nil_r in Hloop. rewrite Hloop.
      now rewrite append_assoc.
    + rewrite Hloop. now rewrite append_assoc.
Qed.

Lemma shell_quote_escapes_witness :
  shell_quote "don't stop" = "'don\'t stop'".
Proof.
  refine (proj1 shell_quote_escapes "don't stop" _ _).
  - discriminate.
  - exists " "%char. split.
    + cbn. tauto.
    + intros [Ha | Hs].
      * unfold alphanumeric in Ha; cbn in Ha. lia.
      * cbn in Hs. repeat (destruct Hs as [Hs | Hs]; [discriminate Hs|]).
        exact Hs.
Defined.

(** ** Further properties of shell_quote *)

Section QuoteFacts.

Lemma append_length (s t : string) :
  String.length (s ++ t) = (String.length s + String.length t)%nat.
Proof. induction s as [|a s IH]; cbn; [reflexivity | now rewrite IH]. Qed.

(** The three ways out of [shell_quote]. *)
Lemma shell_quote_cases (v : string) :
  (v = "" /\ shell_quote v = "''") \/
  (v <> "" /\ all_of is_safe_char v = true /\ shell_quote v = v) \/
  (v <> "" /\ all_of is_safe_char v = false /\
   shell_quote v = "'" ++ escape_apostrophes v ++ "'").
Proof.
  unfold shell_quote.
  destruct (String.eqb_spec v "") as [-> | Hne]; [now left | right].
  destruct (all_of is_safe_char v) eqn:Hall; [now left | right].
  repeat split; try assumption.
  destruct (quote_loop_escapes "'" v) as [_ Hloop].
  destruct (quote_loop "'" v) as [retval rest]; cbn [fst snd] in Hloop.
  destruct (String.eqb_spec rest "") as [-> | _]; cbn [negb].
  - rewrite append_nil_r in Hloop. now rewrite Hloop, append_assoc.
  - now rewrite Hloop, append_assoc.
Qed.

Lemma escape_length (v : string) :
  String.length (escape_apostrophes v) =
  (String.length v + occurrences apostrophe v)%nat.
Proof.
  induction v as [|c v IH]; cbn; [reflexivity|].
  destruct (Ascii.eqb c apostrophe); cbn; rewrite IH; lia.
Qed.

Lemma occurrences_le (c : ascii) (s : string) :
  (occurrences c s <= String.length s)%nat.
Proof.
  induction s as [|a s IH]; cbn; [lia|].
  destruct (Ascii.eqb a c); lia.
Qed.

(** Escaped text never begins with an apostrophe. *)
Lemma escape_head (v : string) (rest : string) :
  escape_apostrophes v <> String apostrophe rest.
Proof.
  destruct v as [|c v]; cbn; [discriminate|].
  destruct (Ascii.eqb_spec c apostrophe) as [-> | Hc].
  - discriminate.
  - intros [= Heq _]. contradiction.
Qed.

Lemma unescape_escape (v : string) :
  unescape_apostrophes (escape_apostrophes v) = v.
Proof.
  induction v as [|c v IH]; [reflexivity|].
  cbn [escape_apostrophes].
  destruct (Ascii.eqb_spec c apostrophe) as [-> | Hc].
  - cbn. now rewrite IH.
  - cbn [unescape_apostrophes].
    destruct (escape_apostrophes v) as [|d rest] eqn:Hesc.
    + rewrite <- IH. reflexivity.
    + destruct (Ascii.eqb_spec d apostrophe) as [-> | Hd].
      * elim (escape_head v rest Hesc).
      * rewrite andb_false_r. now rewrite IH.
Qed.

Lemma append_apostrophe_inj (s t : string) :
  s ++ "'" = t ++ "'" -> s = t.
Proof.
  revert t; induction s as [|a s IH]; intros [|b t]; cbn; intros H.
  - reflexivity.
  - injection H as _ H. destruct t; discriminate.
  - injection H as _ H. destruct s; discriminate.
  - injection H as -> H. now rewrite (IH t H).
Qed.

Lemma apostrophe_unsafe (rest : string) :
  all_of is_safe_char (String apostrophe rest) = false.
Proof. reflexivity. Qed.

(** X1: [shell_quote] is injective: two byte strings with the same
    quoted form are the same string. *)
Theorem shell_quote_injective (v w : string) :
  shell_quote v = shell_quote w -> v = w.
Proof.
  intros H.
  destruct (shell_quote_cases v) as [[-> Hv] | [(Hv0 & Hvs & Hv) | (Hv0 & Hvs & Hv)]];
    destruct (shell_quote_cases w) as [[-> Hw] | [(Hw0 & Hws & Hw) | (Hw0 & Hws & Hw)]];
    try rewrite Hv in H; try rewrite Hw in H; clear Hv Hw.
  - reflexivity.
  - subst w. discriminate.
  - cbn in H. injection H as H. 
    destruct (escape_apostrophes w) as [|c [|d rest]] eqn:Hesc;
      try discriminate.
    apply (f_equal unescape_apostrophes) in Hesc.
    rewrite unescape_escape in Hesc. contradiction.
  - subst v. discriminate.
  - assumption.
  - subst v.
    match type of Hvs with
    | ?t = true => assert (Hq : t = false) by apply apostrophe_unsafe
    end.
    congruence.
  - cbn in H. injection H as H. symmetry in H.
    destruct (escape_apostrophes v) as [|c [|d rest]] eqn:Hesc;
      try discriminate.
    apply (f_equal unescape_apostrophes) in Hesc.
    rewrite unescape_escape in Hesc. contradiction.
  - subst w.
    match type of Hws with
    | ?t = true => assert (Hq : t = false) by apply apostrophe_unsafe
    end.
    congruence.
  - cbn in H. injection H as H. apply append_apostrophe_inj in H.
    apply (f_equal unescape_apostrophes) in H.
    now rewrite !unescape_escape in H.
Qed.

Lemma shell_quote_injective_witness :
  shell_quote "it's" = "'it\'s'" /\ "it's" = "it's".
Proof.
  split; [reflexivity|].
  exact (shell_quote_injective "it's" "it's" eq_refl).
Defined.

(** X2: the strings [shell_quote] returns unchanged are exactly the
    non-empty strings of safe bytes; every other string comes back
    different, so quoting twice is not quoting once. *)
Theorem shell_quote_fixed_points (v : string) :
  shell_quote v = v <-> v <> "" /\ all_safe v.
Proof.
  destruct (shell_quote_cases v)
    as [[-> Hq] | [(Hne & Hsafe & Hq) | (Hne & Hsafe & Hq)]]; rewrite Hq.
  - split; [discriminate | intros [Hne _]; now elim Hne].
  - split; [intros _ | reflexivity].
    split; [assumption | now apply all_of_all_safe].
  - split.
    + intros Heq. apply (f_equal String.length) in Heq.
      cbn in Heq. rewrite append_length, escape_length in Heq. cbn in Heq.
      lia.
    + intros [_ Hall]. apply all_of_all_safe in Hall. congruence.
Qed.

(** X3: the length of the quoted form: 2 for the empty string, the
    length of the input when all bytes are safe, and otherwise the length
    of the input plus one per apostrophe plus the two enclosing
    apostrophes; so it is never shorter than the input, never empty, and
    at most twice the input plus 2. *)
Theorem shell_quote_length (v : string) :
  String.length (shell_quote v) =
    (if String.eqb v "" then 2
     else if all_of is_safe_char v then String.length v
     else String.length v + occurrences apostrophe v + 2)%nat /\
  (String.length v <= String.length (shell_quote v))%nat /\
  (0 < String.length (shell_quote v))%nat /\
  (String.length (shell_quote v) <= 2 * String.length v + 2)%nat.
Proof.
  pose proof (occurrences_le apostrophe v) as Hocc.
  destruct (shell_quote_cases v)
    as [[-> Hq] | [(Hne & Hsafe & Hq) | (Hne & Hsafe & Hq)]]; rewrite Hq.
  - cbn. lia.
  - apply String.eqb_neq in Hne. rewrite Hne, Hsafe.
    destruct v; [discriminate | cbn; lia].
  - apply String.eqb_neq in Hne. rewrite Hne, Hsafe.
    cbn. rewrite append_length, escape_length. cbn. lia.
Qed.

End QuoteFacts.

(** ** run *)

#[local] Arguments after_fork : simpl never.

(** Name what the child made of the code after [fork]. *)
Ltac child_result fate cst H :=
  match goal with
  | |- context [after_fork ?o ?p ?a 0 ?s] =>
      destruct (after_fork o p a 0 s) as [fate cst] eqn:H
  end.

Section RunFacts.

Context {wait_macros : WaitMacros}.
Variable os : OS.
Variables (program : string) (args : list string).

(** C6: a failing [mmap] makes [run] return the captured errno in the
    host-OS domain without forking; so does a failing [fork] after a
    successful allocation, without waiting; and so does a failing
    [waitpid] after a successful [fork], whatever the child did and
    whatever the wait status holds. *)
Theorem run_reports_failed_calls (st : State) :
  (forall e,
      os_mmap os = (MAP_FAILED, e) ->
      fst (run os program args st) = Ret (make_error_code e) /\
      trace (proc (snd (run os program args st))) =
        (trace (proc st) ++ [EvMmap sizeof_int])%list /\
      children (snd (run os program args st)) = children st) /\
  (forall ptr e0 pid e,
      os_mmap os = (ptr, e0) -> ptr <> MAP_FAILED ->
      os_fork os = (pid, e) -> pid < 0 ->
      fst (run os program args st) = Ret (make_error_code e) /\
      filter is_waitpid (trace (proc (snd (run os program args st)))) =
        filter is_waitpid (trace (proc st)) /\
      children (snd (run os program args st)) = children st) /\
  (forall ptr e0 pid e1 r wstatus e,
      os_mmap os = (ptr, e0) -> ptr <> MAP_FAILED ->
      os_fork os = (pid, e1) -> 0 < pid ->
      os_waitpid os pid = (r, wstatus, e) -> r < 0 ->
      fst (run os program args st) = Ret (make_error_code e)).
Proof.
  split; [|split].
  - intros e Hmmap. unfold_run. sym_exec. auto.
  - intros ptr e0 pid e Hmmap Hptr Hfork Hpid.
    apply Z.eqb_neq in Hptr. apply Z.ltb_lt in Hpid.
    unfold_run. sym_exec. unfold_after_fork. sym_exec.
    destruct (ptr =? nullptr); cbn; rewrite ?filter_app; cbn;
      rewrite ?app_nil_r; auto.
  - intros ptr e0 pid e1 r wstatus e Hmmap Hptr Hfork Hpid Hwait Hr.
    apply Z.eqb_neq in Hptr. apply Z.ltb_lt in Hr.
    assert (Hpid0 : (pid <? 0) = false) by lia.
    assert (Hpid1 : (pid =? 0) = false) by lia.
    unfold_run. sym_exec.
    child_result fate cst Hchild.
    unfold_after_fork. sym_exec.
    destruct (ptr =? nullptr); reflexivity.
Qed.

(** Once the child is reaped, the parent looks at the channel first and at
    the wait status only when the channel holds zero. *)
Lemma run_after_reap (st : State) ptr e0 pid e1 r wstatus e2 :
  os_mmap os = (ptr, e0) -> ptr <> MAP_FAILED ->
  os_fork os = (pid, e1) -> 0 < pid ->
  os_waitpid os pid = (r, wstatus, e2) -> 0 <= r ->
  fst (run os program args st) =
  Ret (if channel (snd (run os program args st)) =? 0
       then classify wstatus
       else make_error_code (channel (snd (run os program args st)))).
Proof.
  intros Hmmap Hptr Hfork Hpid Hwait Hr.
  apply Z.eqb_neq in Hptr.
  assert (Hr0 : (r <? 0) = false) by lia.
  assert (Hpid0 : (pid <? 0) = false) by lia.
  assert (Hpid1 : (pid =? 0) = false) by lia.
  unfold_run. sym_exec.
  child_result fate cst Hchild.
  unfold_after_fork. sym_exec.
  destruct (shm cst ptr =? 0) eqn:Hcell; sym_exec;
    (destruct (ptr =? nullptr) eqn:Hnull; sym_exec); reflexivity.
Qed.

(** The order in which [classify] tries the shapes of a wait status. *)
Lemma classify_in_order (wstatus : Z) :
  (WIFEXITED wstatus = true -> WEXITSTATUS wstatus = 0 ->
   classify wstatus = ok) /\
  (WIFEXITED wstatus = true -> WEXITSTATUS wstatus <> 0 ->
   classify wstatus = {| value := WEXITSTATUS wstatus;
                         category := non_zero_exit_code |}) /\
  (WIFEXITED wstatus = false -> WIFSIGNALED wstatus = true ->
   classify wstatus = {| value := WTERMSIG wstatus;
                         category := killed_by_signal |}) /\
  (WIFEXITED wstatus = false -> WIFSIGNALED wstatus = false ->
   WIFSTOPPED wstatus = true ->
   classify wstatus = {| value := WSTOPSIG wstatus;
                         category := stopped_by_signal |}) /\
  (WIFEXITED wstatus = false -> WIFSIGNALED wstatus = false ->
   WIFSTOPPED wstatus = false ->
   classify wstatus = {| value := 1;
                         category := unknown_termination_cause |}).
Proof.
  unfold classify. repeat split.
  - intros -> Hcode. apply Z.eqb_eq in Hcode. now rewrite Hcode.
  - intros -> Hcode. apply Z.eqb_neq in Hcode. now rewrite Hcode.
  - now intros -> ->.
  - now intros -> -> ->.
  - now intros -> -> ->.
Qed.

(** C1: when the parent has reaped the child and the exec-failure channel
    reads 0 (nothing writes the channel after the parent has read it, so
    its content when [run] returns is what the parent read), the outcome
    follows the wait status: a normal exit with code
    0 is OK, a normal exit with another code is NON_ZERO_EXIT with that
    code, else a termination by signal is KILLED_BY_SIGNAL with the signal
    number, else a stop is STOPPED_BY_SIGNAL with the signal number, and
    anything else is UNKNOWN_TERMINATION with payload 1. *)
Theorem run_classifies_wait_status (st : State) ptr e0 pid e1 r wstatus e2 :
  os_mmap os = (ptr, e0) -> ptr <> MAP_FAILED ->
  os_fork os = (pid, e1) -> 0 < pid ->
  os_waitpid os pid = (r, wstatus, e2) -> 0 <= r ->
  channel (snd (run os program args st)) = 0 ->
  let result := fst (run os program args st) in
  (WIFEXITED wstatus = true -> WEXITSTATUS wstatus = 0 -> result = Ret ok) /\
  (WIFEXITED wstatus = true -> WEXITSTATUS wstatus <> 0 ->
   result = Ret {| value := WEXITSTATUS wstatus;
                   category := non_zero_exit_code |}) /\
  (WIFEXITED wstatus = false -> WIFSIGNALED wstatus = true ->
   result = Ret {| value := WTERMSIG wstatus;
                   category := killed_by_signal |}) /\
  (WIFEXITED wstatus = false -> WIFSIGNALED wstatus = false ->
   WIFSTOPPED wstatus = true ->
   result = Ret {| value := WSTOPSIG wstatus;
                   category := stopped_by_signal |}) /\
  (WIFEXITED wstatus = false -> WIFSIGNALED wstatus = false ->
   WIFSTOPPED wstatus = false ->
   result = Ret {| value := 1; category := unknown_termination_cause |}).
Proof.
  intros Hmmap Hptr Hfork Hpid Hwait Hr Hchannel result.
  assert (Hresult : result = Ret (classify wstatus)).
  { unfold result.
    rewrite (run_after_reap st ptr e0 pid e1 r wstatus e2) by assumption.
    now rewrite Hchannel. }
  rewrite Hresult.
  destruct (classify_in_order wstatus) as (Hok & Hcode & Hkill & Hstop & Hunk).
  repeat split; intros; f_equal; auto.
Qed.


(** C2: when [execlp] fails in the child, which stores the errno it left
    in the channel and exits with status 1, and the parent reaps the
    child, [run] returns that errno in the host-OS domain whatever the
    wait status holds. *)
Theorem run_prefers_exec_failure (st : State)
    ptr e0 pid e1 rx ex r wstatus e2 :
  os_mmap os = (ptr, e0) -> ptr <> MAP_FAILED ->
  os_fork os = (pid, e1) -> 0 < pid ->
  os_execlp os program (program :: args) = Some (rx, ex) ->
  rx < 0 -> ex <> 0 ->
  os_waitpid os pid = (r, wstatus, e2) -> 0 <= r ->
  fst (run os program args st) = Ret (make_error_code ex) /\
  channel (snd (run os program args st)) = ex /\
  exists cp,
    children (snd (run os program args st)) =
      (children st ++ [(Exited 1, cp)])%list /\
    errno cp = ex /\
    trace cp = [EvExeclp program (program :: args); EvExit 1].
Proof.
  intros Hmmap Hptr Hfork Hpid Hexec Hrx Hex Hwait Hr.
  apply Z.eqb_neq in Hptr. apply Z.ltb_lt in Hrx. apply Z.eqb_neq in Hex.
  assert (Hr0 : (r <? 0) = false) by lia.
  assert (Hpid0 : (pid <? 0) = false) by lia.
  assert (Hpid1 : (pid =? 0) = false) by lia.
  assert (H00 : (0 <? 0) = false) by reflexivity.
  unfold_run. sym_exec. unfold_after_fork. sym_exec.
  destruct (ptr =? nullptr); sym_exec;
    (split; [reflexivity | split; [reflexivity |]]);
    eexists; repeat split.
Qed.

(** Case analysis on the next test or answer that the code after [fork]
    depends on. *)
Ltac split_step :=
  match goal with
  | |- context [if ?c then _ else _] =>
      lazymatch c with
      | context [if _ then _ else _] => fail
      | context [match _ with _ => _ end] => fail
      | _ => destruct c eqn:?
      end
  | |- context [match os_execlp ?o ?f ?a with _ => _ end] =>
      destruct (os_execlp o f a) as [[? ?]|] eqn:?
  | |- context [os_waitpid ?o ?p] =>
      destruct (os_waitpid o p) as [[? ?] ?] eqn:?
  end.

(** The code after [fork] unmaps nothing and leaves the [Exec_Failure]
    object alone. *)
Lemma after_fork_frame (pid : Z) (s : State) :
  munmaps (trace (proc (snd (after_fork os program args pid s)))) =
    munmaps (trace (proc s)) /\
  exec_failure_value (proc (snd (after_fork os program args pid s))) =
    exec_failure_value (proc s) /\
  mapped (proc (snd (after_fork os program args pid s))) = mapped (proc s).
Proof.
  unfold_after_fork.
  repeat (cbn; split_step); cbn;
    unfold munmaps; rewrite ?filter_app; cbn; rewrite ?app_nil_r; auto.
Qed.

Lemma unmapped_after_filter (addr : Z) (m : list Z) :
  existsb (fun a => a =? addr) (filter (fun a => negb (a =? addr)) m) = false.
Proof.
  induction m as [|a m IH]; cbn; [reflexivity|].
  destruct (a =? addr) eqn:Ha; cbn; [assumption|].
  now rewrite Ha.
Qed.

(** In the parent [run] always comes back with an outcome. *)
Lemma run_returns_in_parent (st : State) :
  fst (os_fork os) <> 0 ->
  exists ec, fst (run os program args st) = Ret ec.
Proof.
  intros Hparent. unfold_run.
  destruct (os_mmap os) as [ptr e0] eqn:Hmmap.
  destruct (ptr =? MAP_FAILED) eqn:Hfailed; sym_exec; [eauto|].
  destruct (os_fork os) as [pid e1] eqn:Hfork. cbn [fst] in Hparent.
  apply Z.eqb_neq in Hparent.
  destruct (pid <? 0) eqn:Hpid; [|child_result fate cst Hchild];
    unfold_after_fork; sym_exec.
  - destruct (ptr =? nullptr); cbn; eauto.
  - destruct (os_waitpid os pid) as [[r wstatus] e2] eqn:Hwait.
    destruct (r <? 0) eqn:Hr; sym_exec;
      [|destruct (shm cst ptr =? 0); sym_exec];
      (destruct (ptr =? nullptr); cbn; eauto).
Qed.

(** C3: provided [mmap] does not hand out the null pointer, whenever [run]
    returns, the cell it allocated has been unmapped exactly once, by the
    one [munmap] call the run adds to the trace, and is no longer mapped;
    when the allocation failed the run adds no [munmap] call at all.  And
    in the parent [run] does return, on every path. *)
Theorem channel_released_once (st : State) :
  fst (os_mmap os) <> nullptr ->
  (forall ec st',
      run os program args st = (Ret ec, st') ->
      if fst (os_mmap os) =? MAP_FAILED
      then munmaps (trace (proc st')) = munmaps (trace (proc st))
      else
        munmaps (trace (proc st')) =
          (munmaps (trace (proc st))
           ++ [EvMunmap (fst (os_mmap os)) sizeof_pointer])%list /\
        is_mapped (fst (os_mmap os)) (proc st') = false) /\
  (fst (os_fork os) <> 0 ->
   exists ec, fst (run os program args st) = Ret ec).
Proof.
  intros Hnull. split; [|apply run_returns_in_parent].
  intros ec st'.
  destruct (os_mmap os) as [ptr e0] eqn:Hmmap. cbn [fst] in *.
  intros Hrun. apply Z.eqb_neq in Hnull.
  revert Hrun. unfold_run. sym_exec.
  destruct (ptr =? MAP_FAILED) eqn:Hfailed; sym_exec.
  - intros [= <- <-]. cbn. unfold munmaps. rewrite filter_app. cbn.
    now rewrite app_nil_r.
  - destruct (os_fork os) as [pid e1] eqn:Hfork.
    destruct (pid <? 0) eqn:Hpid; [|child_result fate cst Hchild];
      match goal with
      | |- context [after_fork ?o ?p ?a pid ?s] =>
          destruct (after_fork_frame pid s) as (Htrace & Hvalue & Hmapped);
          destruct (after_fork o p a pid s) as [res s']
      end;
      cbn [fst snd proc exec_failure_value mapped trace with_proc log
           set_errno set_value set_mapped set_shm] in *;
      (destruct res; try discriminate);
      rewrite Hvalue, Hnull; cbn;
      intros [= <- <-]; cbn;
      unfold munmaps in *; rewrite filter_app, Htrace, Hmapped; cbn;
      rewrite !filter_app; cbn; rewrite ?app_nil_r;
      (split; [reflexivity|]);
      rewrite Z.eqb_refl; cbn; apply unmapped_after_filter.
Qed.

Lemma classify_payload (wstatus : Z) :
  (WIFSIGNALED wstatus = true -> WTERMSIG wstatus <> 0) ->
  (WIFSTOPPED wstatus = true -> WSTOPSIG wstatus <> 0) ->
  payload_tells_ok (classify wstatus).
Proof.
  intros Hterm Hstop. unfold classify, payload_tells_ok.
  destruct (WIFEXITED wstatus).
  - destruct (WEXITSTATUS wstatus =? 0) eqn:Hcode; cbn; [reflexivity|].
    now apply Z.eqb_neq.
  - destruct (WIFSIGNALED wstatus); cbn; [now apply Hterm|].
    destruct (WIFSTOPPED wstatus); cbn; [now apply Hstop | discriminate].
Qed.

Lemma after_fork_payload (pid : Z) (s : State) (ec : error_code) :
  errno_set os -> signals_numbered os ->
  fst (after_fork os program args pid s) = Ret ec ->
  (pid < 0 -> ec = make_error_code (errno (proc s))) /\
  (0 <= pid -> payload_tells_ok ec).
Proof.
  intros (_ & _ & Hwaiterr) Hsignals.
  unfold_after_fork.
  repeat (cbn; split_step); cbn; try discriminate; intros [= <-].
  all: split; intros Hsign.
  all: try reflexivity.
  all: try match goal with
           | H : (_ <? 0) = false, Hs : _ < 0 |- _ = _ =>
               apply Z.ltb_ge in H; exfalso; lia
           | H : (_ <? 0) = true, Hs : 0 <= _ |- payload_tells_ok _ =>
               apply Z.ltb_lt in H; exfalso; lia
           end.
  all: try match goal with
           | |- payload_tells_ok (classify _) =>
               match goal with
               | Hw : os_waitpid _ _ = _, Hr : (_ <? 0) = false |- _ =>
                   apply Z.ltb_ge in Hr;
                   destruct (Hsignals _ _ _ _ Hw Hr);
                   now apply classify_payload
               end
           | Hw : os_waitpid _ _ = (_, _, ?e), Hr : (_ <? 0) = true
             |- payload_tells_ok (make_error_code ?e) =>
               apply Z.ltb_lt in Hr; exact (Hwaiterr _ _ _ _ Hw Hr)
           | Hc : negb (?c =? 0) = true
             |- payload_tells_ok (make_error_code ?c) =>
               apply negb_true_iff, Z.eqb_neq in Hc; exact Hc
           end.
Qed.

(** C9: in every outcome [run] returns, the OK outcome has payload zero
    and an outcome of any other domain (host-OS errno, NON_ZERO_EXIT,
    KILLED_BY_SIGNAL, STOPPED_BY_SIGNAL, UNKNOWN_TERMINATION) has a
    non-zero payload. *)
Theorem ok_iff_zero_payload (st : State) (ec : error_code) :
  errno_set os -> signals_numbered os ->
  fst (run os program args st) = Ret ec ->
  value ok = 0 /\
  match category ec with
  | system_category => ec = ok
  | generic_category | non_zero_exit_code | killed_by_signal
  | stopped_by_signal | unknown_termination_cause => value ec <> 0
  end.
Proof.
  intros Herrno Hsignals Hrun.
  split; [reflexivity|]. fold (payload_tells_ok ec).
  pose proof Herrno as (Hmmaperr & Hforkerr & _).
  revert Hrun. unfold_run.
  destruct (os_mmap os) as [ptr e0] eqn:Hmmap. cbn [fst snd] in Hmmaperr.
  destruct (ptr =? MAP_FAILED) eqn:Hfailed; sym_exec.
  - intros [= <-]. apply Z.eqb_eq in Hfailed. now apply Hmmaperr.
  - destruct (os_fork os) as [pid e1] eqn:Hfork. cbn [fst snd] in Hforkerr.
    destruct (pid <? 0) eqn:Hpid; [|child_result fate cst Hchild];
      match goal with
      | |- context [after_fork ?o ?p ?a pid ?s] =>
          pose proof (after_fork_payload pid s) as Hpayload;
          destruct (after_fork o p a pid s) as [res s']
      end;
      (destruct res; try discriminate);
      specialize (Hpayload _ Herrno Hsignals eq_refl) as (Hneg & Hpos);
      (destruct (negb (exec_failure_value (proc s') =? nullptr)); cbn;
       intros [= <-]).
    1, 2: apply Z.ltb_lt in Hpid; rewrite (Hneg Hpid); cbn; auto.
    1, 2: apply Z.ltb_ge in Hpid; auto.
Qed.

(** C10: when [execlp] returns only to report a failure, control never
    arrives at the [assert] after it, in no process: every child forked
    either has its image replaced, or stores errno in the channel and
    leaves through [exit(1)]. *)
Theorem child_never_reaches_assert (st : State) :
  execlp_posix os ->
  ~ In EvAssert (trace (proc st)) ->
  let final := snd (run os program args st) in
  ~ In EvAssert (trace (proc final)) /\
  exists forked,
    children final = (children st ++ forked)%list /\
    forall fate cp,
      In (fate, cp) forked ->
      ~ In EvAssert (trace cp) /\
      (fate = Replaced \/
       fate = Exited 1 /\ In (EvExit 1) (trace cp) /\
       shm final (exec_failure_value cp) = errno cp).
Proof.
  intros Hposix Hclean final; subst final.
  assert (H00 : (0 <? 0) = false) by reflexivity.
  assert (Hsnoc : forall t ev, ev <> EvAssert ->
            ~ In EvAssert t -> ~ In EvAssert (t ++ [ev])).
  { intros t ev Hev Ht Hin. apply in_app_or in Hin.
    destruct Hin as [Hin | [Hin | []]]; [auto | congruence]. }
  unfold_run.
  destruct (os_mmap os) as [ptr e0] eqn:Hmmap.
  destruct (ptr =? MAP_FAILED) eqn:Hfailed; sym_exec.
  - split; [apply Hsnoc; [discriminate | assumption]|].
    exists []. split; [now rewrite app_nil_r | intros fate cp []].
  - destruct (os_fork os) as [pid e1] eqn:Hfork.
    destruct (pid <? 0) eqn:Hpid; sym_exec.
    + unfold_after_fork. sym_exec.
      destruct (ptr =? nullptr); cbn;
        (split; [repeat (apply Hsnoc; [discriminate|]); assumption|]);
        exists []; (split; [now rewrite app_nil_r | intros fate cp []]).
    + unfold_after_fork. sym_exec.
      destruct (os_execlp os program (program :: args)) as [[rx ex]|]
        eqn:Hexec; sym_exec.
      * pose proof (Hposix _ _ _ _ Hexec) as Hrx. apply Z.ltb_lt in Hrx.
        sym_exec.
        repeat (cbn; first [known_rewrite | split_step]); cbn.
        all: split;
          [repeat (apply Hsnoc; [discriminate|]); assumption|].
        all: eexists; (split; [reflexivity|]).
        all: intros fate cp [[= <- <-] | []]; cbn.
        all: split; [intuition discriminate|].
        all: right; rewrite ?Z.eqb_refl; intuition.
      * repeat (cbn; first [known_rewrite | split_step]); cbn.
        all: split;
          [repeat (apply Hsnoc; [discriminate|]); assumption|].
        all: eexists; (split; [reflexivity|]).
        all: intros fate cp [[= <- <-] | []]; cbn.
        all: split; [intuition discriminate | now left].
Qed.

(** *** run_echo *)

Lemma blind_ret {A} (a : A) : stdout_blind (ret a).
Proof. intros st out. reflexivity. Qed.

Lemma blind_bind {A B} (m : M A) (k : A -> M B) :
  stdout_blind m -> (forall a, stdout_blind (k a)) -> stdout_blind (bind m k).
Proof.
  intros Hm Hk st out. unfold bind. rewrite Hm.
  destruct (m st) as [[a | c | | | ] st1]; cbn; [apply Hk | reflexivity ..].
Qed.

Lemma blind_fork (k : Z -> M error_code) :
  (forall pid, stdout_blind (k pid)) -> stdout_blind (fork os k).
Proof.
  intros Hk st out. unfold fork.
  destruct (os_fork os) as [pid e]. destruct (pid <? 0).
  - exact (Hk pid (with_proc (set_errno e) (with_proc (log EvFork) st)) out).
  - change (child_of (with_proc (log EvFork) (put_stdout out st)))
      with (put_stdout out (child_of (with_proc (log EvFork) st))).
    rewrite (Hk 0).
    destruct (k 0 (child_of (with_proc (log EvFork) st))) as [fate cst].
    cbn [fst snd].
    exact (Hk pid
             {| proc := proc (with_proc (log EvFork) st); shm := shm cst;
                stdout := stdout cst;
                children := children (with_proc (log EvFork) st)
                            ++ [(fate, proc cst)] |} out).
Qed.

Ltac blind_primitive :=
  intros st out; cbv beta delta [mmap munmap execlp waitpid exit assert
    store load put_value get_value get_errno put_stdout];
  cbn [proc shm stdout children];
  repeat match goal with
         | |- context [let '(_, _) := ?x in _] => destruct x
         | |- context [match ?x with Some _ => _ | None => _ end] =>
             destruct x
         | |- context [if ?c then _ else _] => destruct c
         end;
  reflexivity.

Lemma blind_mmap len : stdout_blind (mmap os len).
Proof. blind_primitive. Qed.
Lemma blind_munmap addr len : stdout_blind (munmap addr len).
Proof. blind_primitive. Qed.
Lemma blind_execlp file argv : stdout_blind (execlp os file argv).
Proof. blind_primitive. Qed.
Lemma blind_waitpid pid options : stdout_blind (waitpid os pid options).
Proof. blind_primitive. Qed.
Lemma blind_exit {A} code : stdout_blind (@exit A code).
Proof. blind_primitive. Qed.
Lemma blind_assert cond : stdout_blind (assert os cond).
Proof. blind_primitive. Qed.
Lemma blind_store addr v : stdout_blind (store addr v).
Proof. blind_primitive. Qed.
Lemma blind_load addr : stdout_blind (load addr).
Proof. blind_primitive. Qed.
Lemma blind_put_value v : stdout_blind (put_value v).
Proof. blind_primitive. Qed.
Lemma blind_get_value : stdout_blind get_value.
Proof. blind_primitive. Qed.
Lemma blind_get_errno : stdout_blind get_errno.
Proof. blind_primitive. Qed.

Ltac blind :=
  repeat first
    [ apply blind_bind | apply blind_ret | apply blind_fork
    | apply blind_mmap | apply blind_munmap | apply blind_execlp
    | apply blind_waitpid | apply blind_exit | apply blind_assert
    | apply blind_store | apply blind_load | apply blind_put_value
    | apply blind_get_value | apply blind_get_errno
    | match goal with
      | |- forall _, stdout_blind _ => intro
      | |- stdout_blind (if ?c then _ else _) => destruct c
      | |- stdout_blind (match ?x with (_, _) => _ end) => destruct x
      end ].

Lemma blind_after_fork pid : stdout_blind (after_fork os program args pid).
Proof. unfold after_fork, child, parent. blind. Qed.

Lemma blind_run : stdout_blind (run os program args).
Proof.
  unfold run, run_body, Exec_Failure_dtor. blind.
  apply blind_after_fork.
Qed.

Lemma cout_args_writes (l : list string) (st : State) :
  cout_args l st =
  (Ret tt,
   put_stdout
     (stdout st ++ fold_right (fun a acc => " " ++ shell_quote a ++ acc) "" l)
     st).
Proof.
  revert st; induction l as [|a l IH]; intros [p sh out ch].
  - cbn. unfold ret, put_stdout; cbn. now rewrite append_nil_r.
  - cbn [cout_args fold_right]. unfold bind, cout. cbn [proc shm stdout children].
    rewrite IH. unfold put_stdout; cbn.
    now rewrite !append_assoc.
Qed.

Lemma fold_right_append_tail (l : list string) (tail : string) :
  fold_right (fun a acc => " " ++ shell_quote a ++ acc) "" l ++ tail =
  fold_right (fun a acc => " " ++ shell_quote a ++ acc) tail l.
Proof.
  induction l as [|a l IH]; cbn [fold_right]; [reflexivity|].
  now rewrite !append_assoc, IH.
Qed.

(** C8: [run_echo] appends to standard output the quoted program, then a
    space and the quoted argument for each argument, then a newline, and
    otherwise is [run]: same outcome, same final state. *)
Theorem run_echo_prints_then_runs (st : State) :
  fst (run_echo os program args st) = fst (run os program args st) /\
  stdout (snd (run_echo os program args st)) =
    stdout st ++ echo_line program args /\
  snd (run_echo os program args st) =
    put_stdout (stdout st ++ echo_line program args)
               (snd (run os program args st)).
Proof.
  assert (Hecho : run_echo os program args st =
                  run os program args
                    (put_stdout (stdout st ++ echo_line program args) st)).
  { unfold run_echo, bind at 1 2 3, cout at 1.
    rewrite cout_args_writes. unfold cout, put_stdout, echo_line.
    cbn [proc shm stdout children].
    now rewrite <- (fold_right_append_tail args endl), !append_assoc. }
  rewrite Hecho, blind_run. cbn [fst snd]. auto.
Qed.
(** *** What a run does besides *)

(** X4: when [execlp] finds the program, the child's only call is
    [execlp(program, program, args...)], the channel still holds zero when
    the parent reads it, and the outcome is the classification of the wait
    status alone. *)
Theorem run_of_started_program (st : State) ptr e0 pid e1 r wstatus e2 :
  os_mmap os = (ptr, e0) -> ptr <> MAP_FAILED ->
  os_fork os = (pid, e1) -> 0 < pid ->
  os_execlp os program (program :: args) = None ->
  os_waitpid os pid = (r, wstatus, e2) -> 0 <= r ->
  fst (run os program args st) = Ret (classify wstatus) /\
  channel (snd (run os program args st)) = 0 /\
  exists cp,
    children (snd (run os program args st)) =
      (children st ++ [(Replaced, cp)])%list /\
    trace cp = [EvExeclp program (program :: args)].
Proof.
  intros Hmmap Hptr Hfork Hpid Hexec Hwait Hr.
  apply Z.eqb_neq in Hptr.
  assert (Hr0 : (r <? 0) = false) by lia.
  assert (Hpid0 : (pid <? 0) = false) by lia.
  assert (Hpid1 : (pid =? 0) = false) by lia.
  assert (H00 : (0 <? 0) = false) by reflexivity.
  unfold_run. sym_exec. unfold_after_fork. sym_exec.
  destruct (ptr =? nullptr); sym_exec;
    (split; [reflexivity | split; [reflexivity |]]);
    eexists; split; reflexivity.
Qed.

(** X5: in the parent a run makes exactly four calls, in this order:
    [mmap] of one [int], [fork], [waitpid] on the pid [fork] returned with
    options 0, and [munmap] of the mapped address; this whatever the child
    does and whether or not [waitpid] succeeds.  It forks one child. *)
Theorem parent_call_sequence (st : State) ptr e0 pid e1 :
  os_mmap os = (ptr, e0) -> ptr <> MAP_FAILED -> ptr <> nullptr ->
  os_fork os = (pid, e1) -> 0 < pid ->
  trace (proc (snd (run os program args st))) =
    (trace (proc st)
     ++ [EvMmap sizeof_int; EvFork; EvWaitpid pid 0;
         EvMunmap ptr sizeof_pointer])%list /\
  List.length (children (snd (run os program args st))) =
    S (List.length (children st)).
Proof.
  intros Hmmap Hptr Hnull Hfork Hpid.
  apply Z.eqb_neq in Hptr. apply Z.eqb_neq in Hnull.
  assert (Hpid0 : (pid <? 0) = false) by lia.
  assert (Hpid1 : (pid =? 0) = false) by lia.
  unfold_run. sym_exec.
  child_result fate cst Hchild.
  unfold_after_fork. sym_exec.
  destruct (os_waitpid os pid) as [[r wstatus] e2] eqn:Hwait.
  destruct (r <? 0) eqn:Hr; sym_exec;
    [|destruct (shm cst ptr =? 0); sym_exec];
    rewrite <- !app_assoc, length_app; cbn; (split; [reflexivity | lia]).
Qed.



Lemma classify_not_generic (wstatus : Z) :
  category (classify wstatus) <> generic_category.
Proof.
  unfold classify.
  destruct (WIFEXITED wstatus);
    [destruct (WEXITSTATUS wstatus =? 0) | destruct (WIFSIGNALED wstatus);
       [|destruct (WIFSTOPPED wstatus)]]; discriminate.
Qed.

(** Where an outcome of the host-OS domain can come from, in the code
    after [fork]. *)
Lemma after_fork_generic (pid : Z) (s : State) (ec : error_code) :
  fst (after_fork os program args pid s) = Ret ec ->
  category ec = generic_category ->
  (pid < 0 /\ value ec = errno (proc s)) \/
  (exists p r w e, os_waitpid os p = (r, w, e) /\ r < 0 /\ value ec = e) \/
  (0 <= pid /\ value ec = channel s /\ value ec <> 0).
Proof.
  unfold_after_fork. unfold channel.
  repeat (cbn; first [known_rewrite | split_step]); cbn;
    try discriminate; intros [= <-] Hcat; cbn.
  all: try (elim (classify_not_generic _ Hcat)).
  all: try match goal with
           | Hw : os_waitpid _ _ = (_, _, ?e), Hr : (_ <? 0) = true
             |- _ \/ (exists _ _ _ _, _) \/ _ =>
               right; left; apply Z.ltb_lt in Hr; eauto 10
           end.
  all: try match goal with
           | H : (_ <? 0) = true |- (_ < 0 /\ _) \/ _ =>
               left; apply Z.ltb_lt in H; auto
           end.
  all: match goal with
       | H : (?p <? 0) = false, Hc : negb (_ =? 0) = true
         |- _ \/ _ \/ (0 <= ?p /\ _) =>
           right; right; apply Z.ltb_ge in H;
           apply negb_true_iff, Z.eqb_neq in Hc; auto
       end.
Qed.

(** What the code after [fork] leaves in the channel when run as the
    child on a channel that holds zero. *)
Lemma child_leaves_in_channel (s : State) :
  channel s = 0 ->
  shm (snd (after_fork os program args 0 s)) (exec_failure_value (proc s))
    = 0 \/
  exists r e,
    os_execlp os program (program :: args) = Some (r, e) /\ r < 0 /\
    shm (snd (after_fork os program args 0 s)) (exec_failure_value (proc s))
      = e.
Proof.
  unfold channel. intros Hzero.
  unfold_after_fork.
  repeat (cbn; first [known_rewrite | split_step]); cbn; auto.
  all: right;
    match goal with
    | Hx : os_execlp _ _ _ = Some (?r, ?e), Hr : (?r <? 0) = true |- _ =>
        exists r, e; apply Z.ltb_lt in Hr; auto
    end.
Qed.

(** X7: an outcome of the host-OS domain has one of four origins, with
    the errno of that call as payload: a failed [mmap], a failed [fork], a
    failed [waitpid], or an [execlp] that failed in the child with a
    non-zero errno.  A wait status alone never yields one. *)
Theorem host_error_origin (st : State) (ec : error_code) :
  fst (run os program args st) = Ret ec ->
  category ec = generic_category ->
  (fst (os_mmap os) = MAP_FAILED /\ value ec = snd (os_mmap os)) \/
  (fst (os_fork os) < 0 /\ value ec = snd (os_fork os)) \/
  (exists pid r wstatus e,
      os_waitpid os pid = (r, wstatus, e) /\ r < 0 /\ value ec = e) \/
  (exists r e,
      os_execlp os program (program :: args) = Some (r, e) /\ r < 0 /\
      value ec = e /\ e <> 0).
Proof.
  intros Hrun Hcat. revert Hrun. unfold_run.
  destruct (os_mmap os) as [ptr e0] eqn:Hmmap. cbn [fst snd].
  destruct (ptr =? MAP_FAILED) eqn:Hfailed; sym_exec.
  - intros [= <-]. left. apply Z.eqb_eq in Hfailed. auto.
  - destruct (os_fork os) as [pid e1] eqn:Hfork. cbn [fst snd].
    destruct (pid <? 0) eqn:Hpid.
    + match goal with
      | |- context [after_fork ?o ?p ?q pid ?s] =>
          pose proof (after_fork_generic pid s) as Horigin;
          destruct (after_fork o p q pid s) as [res s']
      end.
      destruct res; try discriminate. cbn [fst] in Horigin.
      destruct (negb (exec_failure_value (proc s') =? nullptr)); cbn;
        intros [= <-];
        destruct (Horigin _ eq_refl Hcat) as [[_ Hv] | [Hw | [Hp _]]];
        cbn in Hv || idtac; apply Z.ltb_lt in Hpid; auto; lia.
    + child_result fate cst Hchild.
      match type of Hchild with
      | after_fork _ _ _ 0 ?s = _ =>
          pose proof (child_leaves_in_channel s) as Hcell;
          rewrite Hchild in Hcell; unfold channel in Hcell; cbn in Hcell;
          rewrite Z.eqb_refl in Hcell; specialize (Hcell eq_refl)
      end.
      match goal with
      | |- context [after_fork ?o ?p ?q pid ?s] =>
          pose proof (after_fork_generic pid s) as Horigin;
          destruct (after_fork o p q pid s) as [res s']
      end.
      destruct res; try discriminate. cbn [fst] in Horigin.
      destruct (negb (exec_failure_value (proc s') =? nullptr)); cbn;
        intros [= <-];
        destruct (Horigin _ eq_refl Hcat)
          as [[Hneg _] | [Hw | (_ & Hv & Hnz)]];
        try (apply Z.ltb_ge in Hpid; lia); auto;
        unfold channel in Hv; cbn in Hv;
        (destruct Hcell as [Hzero | (r & e & Hexec & Hr & He)];
         [congruence |]);
        right; right; right; exists r, e; repeat split; congruence.
Qed.
End RunFacts.

(** ** Concrete runs on Linux *)

(** With the Linux encoding a status that reports a termination by signal
    always carries a non-zero signal number. *)
Lemma linux_signaled_numbered (wstatus : Z) :
  WIFSIGNALED wstatus = true -> WTERMSIG wstatus <> 0.
Proof.
  cbn. intros Hsignaled Hzero. rewrite Hzero in Hsignaled. discriminate.
Qed.

Lemma os_runs_errno_set (wstatus : Z) : errno_set (os_runs wstatus).
Proof.
  repeat split; cbn.
  - discriminate.
  - lia.
  - intros pid r w e. destruct (0 <? pid) eqn:Hpid.
    + intros [= <- _ _] Hneg. apply Z.ltb_lt in Hpid. lia.
    + intros [= _ _ <-] _. discriminate.
Qed.

Lemma os_runs_signals_numbered (wstatus : Z) :
  (WIFSTOPPED wstatus = true -> WSTOPSIG wstatus <> 0) ->
  signals_numbered (os_runs wstatus).
Proof.
  intros Hstop pid r w e. cbn [os_runs os_waitpid].
  destruct (0 <? pid).
  - intros [= _ <- _] _. split; [apply linux_signaled_numbered | exact Hstop].
  - intros [= <- _ _] Hr. lia.
Qed.

(** The end-to-end scenarios of the specification. *)
Example run_true :
  fst (run (os_runs 0) "true" [] fresh) = Ret ok.
Proof. vm_compute. reflexivity. Qed.

Example run_false :
  fst (run (os_runs 256) "false" [] fresh)
  = Ret {| value := 1; category := non_zero_exit_code |}.
Proof. vm_compute. reflexivity. Qed.

Example run_kill_TERM :
  fst (run (os_runs 15) "sh" ["-c"; "kill -TERM $$"] fresh)
  = Ret {| value := 15; category := killed_by_signal |}.
Proof. vm_compute. reflexivity. Qed.

Example run_echo_output :
  stdout (snd (run_echo (os_runs 0) "echo" ["it's"; "a b"; "ok"] fresh))
  = "echo 'it\'s' 'a b' ok" ++ endl.
Proof. vm_compute. reflexivity. Qed.

(** Without the promise of POSIX the channel cannot tell a failed [execlp]
    that left errno at zero from a program that ran: the outcome then
    follows the wait status. *)
Example exec_failure_with_errno_zero :
  fst (run {| os_mmap := (4096, 0); os_fork := (4711, 0);
              os_execlp := fun _ _ => Some (-1, 0);
              os_waitpid := fun _ => (4711, 256, 0);
              NDEBUG := false |} "nope" [] fresh)
  = Ret {| value := 1; category := non_zero_exit_code |}.
Proof. vm_compute. reflexivity. Qed.

(** The [assert] does guard the one case POSIX excludes: an [execlp] that
    returns without reporting a failure. *)
Example assert_stops_a_returning_execlp :
  map fst
    (children
       (snd (run {| os_mmap := (4096, 0); os_fork := (4711, 0);
                    os_execlp := fun _ _ => Some (0, 0);
                    os_waitpid := fun _ => (4711, 134, 0);
                    NDEBUG := false |} "odd" [] fresh)))
  = [Aborted].
Proof. vm_compute. reflexivity. Qed.

Lemma run_classifies_wait_status_witness :
  fst (run (os_runs 10752) "sh" ["-c"; "exit 42"] fresh)
  = Ret {| value := 42; category := non_zero_exit_code |}.
Proof.
  refine (proj1 (proj2
    (run_classifies_wait_status (os_runs 10752) "sh" ["-c"; "exit 42"] fresh
       140737351856128 0 4711 0 4711 10752 0
       eq_refl _ eq_refl _ eq_refl _ _)) eq_refl _).
  - discriminate.
  - lia.
  - lia.
  - vm_compute. reflexivity.
  - vm_compute. discriminate.
Defined.

Lemma run_prefers_exec_failure_witness :
  fst (run os_no_such_program "this-binary-does-not-exist-xyzzy" [] fresh)
  = Ret (make_error_code ENOENT).
Proof.
  refine (proj1
    (run_prefers_exec_failure os_no_such_program
       "this-binary-does-not-exist-xyzzy" [] fresh
       140737351856128 0 4711 0 (-1) ENOENT 4711 256 0
       eq_refl _ eq_refl _ eq_refl _ _ eq_refl _)).
  - discriminate.
  - lia.
  - lia.
  - discriminate.
  - lia.
Defined.

Lemma channel_released_once_witness :
  (munmaps (trace (proc (snd (run (os_runs 0) "true" [] fresh))))
   = [EvMunmap 140737351856128 sizeof_pointer] /\
   is_mapped 140737351856128 (proc (snd (run (os_runs 0) "true" [] fresh)))
   = false) /\
  exists ec, fst (run (os_runs 0) "true" [] fresh) = Ret ec.
Proof.
  assert (Hnull : fst (os_mmap (os_runs 0)) <> nullptr) by discriminate.
  split.
  - refine (proj1 (channel_released_once (os_runs 0) "true" [] fresh Hnull)
              ok (snd (run (os_runs 0) "true" [] fresh)) _).
    vm_compute. reflexivity.
  - refine (proj2 (channel_released_once (os_runs 0) "true" [] fresh Hnull)
              _).
    discriminate.
Defined.

Lemma run_reports_failed_calls_witness :
  fst (run os_mmap_fails "true" [] fresh) = Ret (make_error_code ENOMEM) /\
  fst (run os_fork_fails "true" [] fresh) = Ret (make_error_code EAGAIN) /\
  fst (run os_waitpid_fails "true" [] fresh) = Ret (make_error_code ECHILD).
Proof.
  split; [|split].
  - exact (proj1 (proj1 (run_reports_failed_calls os_mmap_fails "true" []
                           fresh) ENOMEM eq_refl)).
  - refine (proj1 (proj1 (proj2 (run_reports_failed_calls os_fork_fails
                                   "true" [] fresh))
                     140737351856128 0 (-1) EAGAIN eq_refl _ eq_refl _)).
    + discriminate.
    + lia.
  - refine (proj2 (proj2 (run_reports_failed_calls os_waitpid_fails
                            "true" [] fresh))
              140737351856128 0 4711 0 (-1) 0 ECHILD
              eq_refl _ eq_refl _ eq_refl _).
    + discriminate.
    + lia.
    + lia.
Defined.

Lemma ok_iff_zero_payload_witness :
  value ok = 0 /\
  value {| value := 42; category := non_zero_exit_code |} <> 0.
Proof.
  refine (ok_iff_zero_payload (os_runs 10752) "sh" ["-c"; "exit 42"] fresh
            {| value := 42; category := non_zero_exit_code |} _ _ _).
  - apply os_runs_errno_set.
  - apply os_runs_signals_numbered. discriminate.
  - vm_compute. reflexivity.
Defined.

Lemma child_never_reaches_assert_witness :
  execlp_posix os_no_such_program /\
  let final := snd (run os_no_such_program "nope" [] fresh) in
  ~ In EvAssert (trace (proc final)) /\
  exists forked,
    children final = (children fresh ++ forked)%list /\
    forall fate cp,
      In (fate, cp) forked ->
      ~ In EvAssert (trace cp) /\
      (fate = Replaced \/
       fate = Exited 1 /\ In (EvExit 1) (trace cp) /\
       shm final (exec_failure_value cp) = errno cp).
Proof.
  assert (Hposix : execlp_posix os_no_such_program).
  { intros file argv r e [= <- _]. lia. }
  split; [exact Hposix|].
  refine (child_never_reaches_assert os_no_such_program "nope" [] fresh
            Hposix _).
  intros [].
Defined.

(** ** The rendering of outcomes *)

Lemma to_string_injective (n m : Z) : to_string n = to_string m -> n = m.
Proof.
  intros H. apply (f_equal (fun s => option_map Z.of_int
                                       (NilZero.int_of_string s))) in H.
  rewrite !to_string_parses in H. now injection H.
Qed.

(** X8: among the three domains that render their payload, a message
    determines both the domain and the payload. *)
Theorem messages_distinguish (c1 c2 : category_id) (d1 d2 : error_category)
    (n1 n2 : Z) :
  domain c1 = Some d1 -> domain c2 = Some d2 ->
  c1 <> unknown_termination_cause -> c2 <> unknown_termination_cause ->
  message d1 n1 = message d2 n2 ->
  c1 = c2 /\ n1 = n2.
Proof.
  intros H1 H2 Hk1 Hk2 Hmsg.
  destruct c1; try discriminate; try contradiction;
    destruct c2; try discriminate; try contradiction;
    injection H1 as <-; injection H2 as <-;
    cbn [message Non_Zero_Exit_Code Killed_By_Signal Stopped_By_Signal
         append] in Hmsg;
    try discriminate;
    (split; [reflexivity|]);
    apply to_string_injective; now injection Hmsg.
Qed.

Lemma messages_distinguish_witness :
  message Killed_By_Signal 9 = "killed by signal 9" /\
  (killed_by_signal = killed_by_signal /\ 9 = 9).
Proof.
  split; [reflexivity|].
  refine (messages_distinguish killed_by_signal killed_by_signal
            Killed_By_Signal Killed_By_Signal 9 9 eq_refl eq_refl _ _
            eq_refl); discriminate.
Defined.

(** ** The overloads for owned strings *)

Section Converting.

Context {wait_macros : WaitMacros}.
Variable os : OS.

Lemma find_app_at (c : ascii) (a b : string) :
  find c a = None -> find c (a ++ String c b) = Some (String.length a).
Proof.
  induction a as [|x a IH]; cbn.
  - now rewrite Ascii.eqb_refl.
  - destruct (Ascii.eqb x c); [discriminate|].
    destruct (find c a); [discriminate|].
    intros _. now rewrite IH.
Qed.

Lemma take_app_length (a b : string) : take (String.length a) (a ++ b) = a.
Proof.
  induction a as [|x a IH]; cbn; [now destruct b | now rewrite IH].
Qed.

Lemma c_str_cuts (a b : string) :
  find NUL a = None -> c_str (a ++ String NUL b) = a.
Proof.
  intros Ha. unfold c_str. rewrite (find_app_at NUL a b Ha).
  apply take_app_length.
Qed.

(** X9: the overloads for owned strings pass on what the string denotes
    as a C string: the bytes before its first NUL, and all of it when it
    holds none.  Bytes after an embedded NUL reach neither the echoed line
    nor [execlp]. *)
Theorem converting_cuts_at_NUL (a b : string) (args : list Argument)
    (st : State) :
  find NUL a = None ->
  run_converting os {| bytes := a ++ String NUL b |} args st =
    run os a (as_cstr_pack args) st /\
  run_echo_converting os {| bytes := a ++ String NUL b |} args st =
    run_echo os a (as_cstr_pack args) st /\
  run_converting os {| bytes := a |} args st =
    run os a (as_cstr_pack args) st /\
  run_echo_converting os {| bytes := a |} args st =
    run_echo os a (as_cstr_pack args) st.
Proof.
  intros Ha.
  unfold run_converting, run_echo_converting; cbn [as_cstr
    std_string_Convertible_To_CStr bytes].
  rewrite (c_str_cuts a b Ha).
  unfold c_str. rewrite Ha. auto.
Qed.

End Converting.

Lemma converting_cuts_at_NUL_witness :
  stdout (snd (run_echo_converting (os_runs 0)
                 {| bytes := "ls" ++ String NUL "; rm -rf /" |}
                 [ {| arg_type := string; arg_concept := _;
                      arg_value := "my dir" |} ] fresh))
  = "ls 'my dir'" ++ endl.
Proof.
  rewrite (proj1 (proj2 (converting_cuts_at_NUL (os_runs 0)
                           "ls" "; rm -rf /"
                           [ {| arg_type := string; arg_concept := _;
                                arg_value := "my dir" |} ] fresh
                           eq_refl))).
  vm_compute. reflexivity.
Defined.

(** ** Concrete runs, continued *)

Lemma run_of_started_program_witness :
  fst (run (os_runs 15) "sh" ["-c"; "kill -TERM $$"] fresh)
  = Ret {| value := 15; category := killed_by_signal |}.
Proof.
  refine (proj1
    (run_of_started_program (os_runs 15) "sh" ["-c"; "kill -TERM $$"] fresh
       140737351856128 0 4711 0 4711 15 0
       eq_refl _ eq_refl _ eq_refl eq_refl _)).
  - discriminate.
  - lia.
  - lia.
Defined.

Lemma parent_call_sequence_witness :
  trace (proc (snd (run os_no_such_program "nope" [] fresh)))
  = [EvMmap sizeof_int; EvFork; EvWaitpid 4711 0;
     EvMunmap 140737351856128 sizeof_pointer].
Proof.
  refine (proj1
    (parent_call_sequence os_no_such_program "nope" [] fresh
       140737351856128 0 4711 0 eq_refl _ _ eq_refl _)).
  - discriminate.
  - discriminate.
  - lia.
Defined.

Lemma host_error_origin_witness :
  (fst (os_mmap os_no_such_program) = MAP_FAILED /\
   value (make_error_code ENOENT) = snd (os_mmap os_no_such_program)) \/
  (fst (os_fork os_no_such_program) < 0 /\
   value (make_error_code ENOENT) = snd (os_fork os_no_such_program)) \/
  (exists pid r wstatus e,
      os_waitpid os_no_such_program pid = (r, wstatus, e) /\ r < 0 /\
      value (make_error_code ENOENT) = e) \/
  (exists r e,
      os_execlp os_no_such_program "nope" ["nope"] = Some (r, e) /\ r < 0 /\
      value (make_error_code ENOENT) = e /\ e <> 0).
Proof.
  exact (host_error_origin os_no_such_program "nope" [] fresh
           (make_error_code ENOENT) eq_refl eq_refl).
Defined.
